(** * PomodoroTimer: a shallow embedding of [src/components/PomodoroTimer.tsx]

    The component keeps seven pieces of React state and changes them only
    through its event handlers, its interval callback and the clock effect.
    Every handler is embedded as a function on the record [State]; the
    re-render / effect cycle of React is embedded as the loop [commit].

    Conventions of the embedding.
    - A JavaScript [number] that holds a count of seconds, minutes or
      sessions is an integer; it is represented by [Z].  Doubles are exact
      on integers of magnitude up to 2^53, which is the range in which the
      embedding and the component agree.  [NaN], which [parseInt] can
      return, is a separate constructor of [number]; negative zero is
      identified with zero (the only consumer is the test [duration > 0]).
    - A JavaScript string is a [string]; each [ascii] stands for the code
      unit of the same number (0..255).
    - [Date.now()] and the behaviour of the audio API are inputs of the
      handlers that use them. *)

From Stdlib Require Import ZArith List Bool Lia Ascii String.
Import ListNotations.

Local Open Scope string_scope.
Local Open Scope Z_scope.

(** ** JavaScript values used by the component *)

Module JS.

(** Result of [parseInt] and of arithmetic on it. *)
Inductive number : Type :=
| NaN : number
| Num : Z -> number.

Definition isNaN (x : number) : bool :=
  match x with NaN => true | Num _ => false end.

(** [x * k] for an integer constant [k]. *)
Definition mul (x : number) (k : Z) : number :=
  match x with NaN => NaN | Num z => Num (z * k) end.

(** [x > k]; every comparison with [NaN] is false. *)
Definition gt (x : number) (k : Z) : bool :=
  match x with NaN => false | Num z => k <? z end.

Definition code (c : ascii) : Z := Z.of_N (N_of_ascii c).

(** WhiteSpace and LineTerminator code units below 256:
    TAB, LF, VT, FF, CR, SP and NBSP. *)
Definition isWhiteSpace (c : ascii) : bool :=
  let k := code c in
  ((9 <=? k) && (k <=? 13)) || (k =? 32) || (k =? 160).

(** [TrimString(s, start)]. *)
Fixpoint trimStart (s : string) : string :=
  match s with
  | EmptyString => EmptyString
  | String c rest => if isWhiteSpace c then trimStart rest else s
  end.

(** Value of a code unit as a digit in a radix up to 36. *)
Definition digitValue (c : ascii) : option Z :=
  let k := code c in
  if (48 <=? k) && (k <=? 57) then Some (k - 48)
  else if (97 <=? k) && (k <=? 122) then Some (k - 87)
  else if (65 <=? k) && (k <=? 90) then Some (k - 55)
  else None.

(** The digits of the longest prefix of [s] made of radix-[R] digits. *)
Fixpoint digitPrefix (R : Z) (s : string) : list Z :=
  match s with
  | EmptyString => []
  | String c rest =>
      match digitValue c with
      | Some d => if d <? R then d :: digitPrefix R rest else []
      | None => []
      end
  end.

(** Horner evaluation of a digit list, most significant digit first. *)
Definition mathInt (R : Z) (ds : list Z) : Z :=
  fold_left (fun acc d => acc * R + d) ds 0.

(** Steps 3-4 of [parseInt]: an optional sign. *)
Definition readSign (s : string) : Z * string :=
  match s with
  | String c rest =>
      if (c =? "-")%char then (-1, rest)
      else if (c =? "+")%char then (1, rest)
      else (1, s)
  | EmptyString => (1, s)
  end.

(** Step 6 of [parseInt] with no radix argument: a [0x] or [0X] prefix
    selects radix 16, anything else radix 10. *)
Definition stripPrefix (s : string) : Z * string :=
  match s with
  | String c0 (String c1 rest) =>
      if ((c0 =? "0") && ((c1 =? "x") || (c1 =? "X")))%char
      then (16, rest) else (10, s)
  | _ => (10, s)
  end.

(** [parseInt(string)] called with one argument. *)
Definition parseInt (input : string) : number :=
  let '(sign, s1) := readSign (trimStart input) in
  let '(R, s2) := stripPrefix s1 in
  match digitPrefix R s2 with
  | [] => NaN
  | ds => Num (sign * mathInt R ds)
  end.

(** Decimal digit character of [d] in 0..9. *)
Definition digitChar (d : Z) : ascii := ascii_of_N (Z.to_N (48 + d)).

(** Decimal digits of a non-negative integer, prepended to [acc];
    [fuel] bounds the number of digits produced. *)
Fixpoint digitsOf (fuel : nat) (n : Z) (acc : string) : string :=
  match fuel with
  | O => acc
  | S f =>
      let acc' := String (digitChar (n mod 10)) acc in
      if n <? 10 then acc' else digitsOf f (n / 10) acc'
  end.

(** An integer [n >= 0] has at most [log2 n + 1] decimal digits. *)
Definition digitFuel (n : Z) : nat := S (Z.to_nat (Z.log2 n)).

(** [Number.prototype.toString()] on an integer. *)
Definition toString (n : Z) : string :=
  if n <? 0 then String "-" (digitsOf (digitFuel (- n)) (- n) "")
  else digitsOf (digitFuel n) n "".

(** [count] code units taken cyclically from [filler], continuing with
    [rest]: the truncated repetition built by [padStart]. *)
Fixpoint cycle (count : nat) (rest filler : string) : string :=
  match count with
  | O => ""
  | S k =>
      match rest with
      | String c r => String c (cycle k r filler)
      | EmptyString =>
          match filler with
          | String c r => String c (cycle k r filler)
          | EmptyString => ""
          end
      end
  end.

(** [String.prototype.padStart(targetLength, padString)]. *)
Definition padStart (targetLength : nat) (padString : string) (s : string) : string :=
  if (targetLength <=? length s)%nat then s
  else match padString with
       | EmptyString => s
       | _ => cycle (targetLength - length s) padString padString ++ s
       end.

(** [Math.floor(a / b)] for integers and [b > 0]. *)
Definition floorDiv (a b : Z) : Z := a / b.

(** [a % b]: the remainder has the sign of the dividend. *)
Definition remainder (a b : Z) : Z := Z.rem a b.

End JS.

Import JS.

(** ** Outcomes of code that can throw *)

(** What a call produces: a value, an exception, or no answer within the
    number of re-renders the embedding was given. *)
Inductive Outcome (A : Type) : Type :=
| Returned (a : A)
| Thrown (error : string)
| OutOfFuel.

Arguments Returned {A} a.
Arguments Thrown {A} error.
Arguments OutOfFuel {A}.

Definition bind {A B : Type} (m : Outcome A) (k : A -> Outcome B) : Outcome B :=
  match m with
  | Returned a => k a
  | Thrown e => Thrown e
  | OutOfFuel => OutOfFuel
  end.

(** [try { body } catch (error) { handler }]. *)
Definition tryCatch {A : Type} (body : Outcome A) (handler : string -> Outcome A) : Outcome A :=
  match body with
  | Thrown e => handler e
  | other => other
  end.

Declare Scope outcome_scope.
Delimit Scope outcome_scope with outcome.
Notation "x <- m ;; k" := (bind m (fun x => k))
  (at level 61, m at next level, right associativity) : outcome_scope.
Local Open Scope outcome_scope.

(** ** The browser as seen by the completion sound *)

Inductive Permission : Type := Granted | Denied | Undecided.

Record Host : Type := mkHost {
  (** the Web Audio calls throw (no [AudioContext], creation refused, ...) *)
  audioThrows : bool;
  (** [None] when ['Notification' in window] is false *)
  notification : option Permission
}.

Inductive HostAction : Type :=
| PlayTwoTones
| PlaySingleTone
| ShowNotification (title body icon : string)
| RequestPermission
| ConsoleError (message : string).

(** ** Data model *)

Record Timer : Type := mkTimer {
  id : string;
  name : string;
  duration : Z
}.

(** [interface EditingTimer] has the same three fields as [Timer]; the two
    are one type under TypeScript's structural typing. *)
Definition EditingTimer : Type := Timer.

Record State : Type := mkState {
  timers : list Timer;
  activeTimerId : string;
  timeLeft : Z;
  isActive : bool;
  completedPomodoros : Z;
  isEditing : bool;
  editingTimer : option EditingTimer
}.

(** The [useState] initial values. *)
Definition initialState : State :=
  {| timers := [ {| id := "1"; name := "Work"; duration := 25 * 60 |} ];
     activeTimerId := "1";
     timeLeft := 25 * 60;
     isActive := false;
     completedPomodoros := 0;
     isEditing := false;
     editingTimer := None |}.

(** The state setters returned by [useState]. *)
Definition setTimers (v : list Timer) (s : State) : State :=
  mkState v (activeTimerId s) (timeLeft s) (isActive s)
          (completedPomodoros s) (isEditing s) (editingTimer s).

Definition setActiveTimerId (v : string) (s : State) : State :=
  mkState (timers s) v (timeLeft s) (isActive s)
          (completedPomodoros s) (isEditing s) (editingTimer s).

Definition setTimeLeft (v : Z) (s : State) : State :=
  mkState (timers s) (activeTimerId s) v (isActive s)
          (completedPomodoros s) (isEditing s) (editingTimer s).

Definition setIsActive (v : bool) (s : State) : State :=
  mkState (timers s) (activeTimerId s) (timeLeft s) v
          (completedPomodoros s) (isEditing s) (editingTimer s).

Definition setCompletedPomodoros (v : Z) (s : State) : State :=
  mkState (timers s) (activeTimerId s) (timeLeft s) (isActive s)
          v (isEditing s) (editingTimer s).

Definition setIsEditing (v : bool) (s : State) : State :=
  mkState (timers s) (activeTimerId s) (timeLeft s) (isActive s)
          (completedPomodoros s) v (editingTimer s).

Definition setEditingTimer (v : option EditingTimer) (s : State) : State :=
  mkState (timers s) (activeTimerId s) (timeLeft s) (isActive s)
          (completedPomodoros s) (isEditing s) v.

(** ** Handlers

    A handler reads the state values of the render it was created in and
    queues setter calls; events are handled one at a time, so that render
    is the state [s] the handler is applied to. *)

(** [timers.find(t => t.id === activeTimerId)]. *)
Definition findTimer (key : string) (l : list Timer) : option Timer :=
  find (fun t => (id t =? key)%string) l.

(** The audio part of the two-tone [playNotificationSound]: context
    creation, two oscillators, gain envelope, start and stop. *)
Definition twoToneChime (h : Host) : Outcome (list HostAction) :=
  if audioThrows h then Thrown "audio" else Returned [PlayTwoTones].

(** The notification fallback that follows the chime inside the [try]. *)
Definition systemNotification (h : Host) : list HostAction :=
  match notification h with
  | Some Granted =>
      [ShowNotification "Timer Complete!" "Your mission timer has finished." "/favicon.ico"]
  | Some Undecided => [RequestPermission]
  | Some Denied => []
  | None => []
  end.

(** [playNotificationSound] of the component: an [async] function whose
    whole body is a [try] with a logging [catch]. *)
Definition playNotificationSound (h : Host) : Outcome (list HostAction) :=
  tryCatch
    (tones <- twoToneChime h ;; Returned (tones ++ systemNotification h)%list)
    (fun _ => Returned [ConsoleError "Error playing notification sound:"]).

(** [playNotificationSound] of the single-tone version of the component:
    the Web Audio calls are made directly, with no [try]. *)
Definition playNotificationSound_singleTone (h : Host) : Outcome (list HostAction) :=
  if audioThrows h then Thrown "audio" else Returned [PlaySingleTone].

Definition toggleTimer (s : State) : State :=
  setIsActive (negb (isActive s)) s.

Definition resetTimer (s : State) : State :=
  let s1 := setIsActive false s in
  match findTimer (activeTimerId s) (timers s) with
  | Some currentTimer => setTimeLeft (duration currentTimer) s1
  | None => s1
  end.

(** [formatTime]. *)
Definition formatTime (seconds : Z) : string :=
  let minutes := floorDiv seconds 60 in
  let remainingSeconds := remainder seconds 60 in
  padStart 2 "0" (toString minutes) ++ ":" ++ padStart 2 "0" (toString remainingSeconds).

(** [addNewTimer]; [now] is the value of [Date.now()]. *)
Definition addNewTimer (now : Z) (s : State) : State :=
  let newTimer := {| id := toString now; name := "New Timer"; duration := 25 * 60 |} in
  setTimers (timers s ++ [newTimer])%list s.

Definition startEditing (timer : Timer) (s : State) : State :=
  setIsEditing true
    (setEditingTimer
       (Some {| id := id timer; name := name timer; duration := duration timer |}) s).

Definition saveEdit (s : State) : State :=
  let s1 :=
    match editingTimer s with
    | Some draft =>
        let s0 :=
          setTimers
            (map (fun timer =>
                    if (id timer =? id draft)%string
                    then {| id := id timer; name := name draft; duration := duration draft |}
                    else timer)
                 (timers s)) s in
        if (activeTimerId s =? id draft)%string
        then setTimeLeft (duration draft) s0 else s0
    | None => s
    end in
  setEditingTimer None (setIsEditing false s1).

Definition handleDurationChange (minutes : string) (s : State) : State :=
  match editingTimer s with
  | Some draft =>
      let duration' := mul (parseInt minutes) 60 in
      if negb (isNaN duration') && gt duration' 0
      then match duration' with
           | Num d => setEditingTimer
                        (Some {| id := id draft; name := name draft; duration := d |}) s
           | NaN => s
           end
      else s
  | None => s
  end.

(** The [onChange] of the name input. *)
Definition handleNameChange (text : string) (s : State) : State :=
  match editingTimer s with
  | Some draft =>
      setEditingTimer
        (Some {| id := id draft; name := text; duration := duration draft |}) s
  | None => s
  end.

(** The [onClick] of the button of [timer] in the preset list. *)
Definition selectTimer (timer : Timer) (s : State) : State :=
  setIsActive false (setTimeLeft (duration timer) (setActiveTimerId (id timer) s)).

(** The callback passed to [setInterval]. *)
Definition intervalCallback (s : State) : State :=
  setTimeLeft (timeLeft s - 1) s.

(** The state after the three bookkeeping calls of [handleTimerComplete]:
    [setIsActive(false)], [setCompletedPomodoros(prev => prev + 1)] and
    [resetTimer()]. *)
Definition completed (s : State) : State :=
  resetTimer (setCompletedPomodoros (completedPomodoros s + 1) (setIsActive false s)).

Section Completion.

(** The two versions of the component differ in [playNotificationSound]
    only; [handleTimerComplete] and the clock effect are the same text. *)
Variable playSound : Host -> Outcome (list HostAction).

(** [handleTimerComplete]: the sound first, then the bookkeeping. *)
Definition handleTimerCompleteWith (h : Host) (s : State) : Outcome State :=
  _ <- playSound h ;;
  Returned (completed s).

(** The body of the clock effect.  The number returned beside the state
    is the number of calls of [handleTimerComplete] the effect made. *)
Definition clockEffectWith (h : Host) (s : State) : Outcome (State * nat) :=
  if isActive s && (0 <? timeLeft s) then Returned (s, 0%nat)
  else if timeLeft s =? 0 then
    s' <- handleTimerCompleteWith h s ;; Returned (s', 1%nat)
  else Returned (s, 0%nat).

(** Dependency array [[isActive, timeLeft]] of the clock effect. *)
Definition sameDeps (a b : State) : bool :=
  Bool.eqb (isActive a) (isActive b) && (timeLeft a =? timeLeft b).

(** React commits [cur], whose previous commit was [prev]: the effect runs
    when a dependency changed, and a state change made by the effect is
    committed in turn.  [fuel] bounds the number of effect runs. *)
Fixpoint commitWith (fuel : nat) (h : Host) (prev cur : State) : Outcome (State * nat) :=
  if sameDeps prev cur then Returned (cur, 0%nat)
  else match fuel with
       | O => OutOfFuel
       | S f =>
           r1 <- clockEffectWith h cur ;;
           r2 <- commitWith f h cur (fst r1) ;;
           Returned (fst r2, (snd r1 + snd r2)%nat)
       end.

End Completion.

Definition handleTimerComplete : Host -> State -> Outcome State :=
  handleTimerCompleteWith playNotificationSound.

Definition handleTimerComplete_singleTone : Host -> State -> Outcome State :=
  handleTimerCompleteWith playNotificationSound_singleTone.

Definition clockEffect : Host -> State -> Outcome (State * nat) :=
  clockEffectWith playNotificationSound.

Definition commit : nat -> Host -> State -> State -> Outcome (State * nat) :=
  commitWith playNotificationSound.

(** ** Events *)

(** What can happen to the mounted component.  [ClickSelect i] and
    [ClickEdit i] are clicks on the two buttons of the [i]-th preset. *)
Inductive Event : Type :=
| ClickLaunch                     (* the Launch / Abort button *)
| ClickReset
| ClickAddNewTimer (now : Z)
| ClickSelect (i : nat)
| ClickEdit (i : nat)
| NameInput (text : string)
| DurationInput (minutes : string)
| ClickConfirm
| Tick.                           (* the interval fires *)

(** The edit form replaces the rest of the page when this holds. *)
Definition editView (s : State) : bool :=
  isEditing s && match editingTimer s with Some _ => true | None => false end.

(** The handler an event reaches.  A control that is not rendered, and an
    interval that is not armed, cannot produce an event: the state is then
    left as it is. *)
Definition handler (e : Event) (s : State) : State :=
  match e with
  | Tick => if isActive s && (0 <? timeLeft s) then intervalCallback s else s
  | NameInput text => if editView s then handleNameChange text s else s
  | DurationInput minutes => if editView s then handleDurationChange minutes s else s
  | ClickConfirm => if editView s then saveEdit s else s
  | ClickLaunch => if editView s then s else toggleTimer s
  | ClickReset => if editView s then s else resetTimer s
  | ClickAddNewTimer now => if editView s then s else addNewTimer now s
  | ClickSelect i =>
      if editView s then s
      else match nth_error (timers s) i with
           | Some timer => selectTimer timer s
           | None => s
           end
  | ClickEdit i =>
      if editView s then s
      else match nth_error (timers s) i with
           | Some timer => startEditing timer s
           | None => s
           end
  end.

(** Effect runs that are always enough for a commit to settle
    ([commit_settles]). *)
Definition renderBudget : nat := 3.

(** One event: the handler, then the commit of the new state. *)
Definition dispatch (h : Host) (e : Event) (s : State) : Outcome (State * nat) :=
  commit renderBudget h s (handler e s).

(** [n] firings of the interval in a row, with the number of completions. *)
Fixpoint ticks (n : nat) (h : Host) (s : State) : Outcome (State * nat) :=
  match n with
  | O => Returned (s, 0%nat)
  | S k =>
      r1 <- dispatch h Tick s ;;
      r2 <- ticks k h (fst r1) ;;
      Returned (fst r2, (snd r1 + snd r2)%nat)
  end.

(** A sequence of events, with the number of completions. *)
Fixpoint run (h : Host) (es : list Event) (s : State) : Outcome (State * nat) :=
  match es with
  | [] => Returned (s, 0%nat)
  | e :: rest =>
      r1 <- dispatch h e s ;;
      r2 <- run h rest (fst r1) ;;
      Returned (fst r2, (snd r1 + snd r2)%nat)
  end.

(** States the mounted component can be in between two events. *)
Inductive reachable : State -> Prop :=
| reachable_mount : reachable initialState
| reachable_event : forall h e s s' k,
    reachable s -> dispatch h e s = Returned (s', k) -> reachable s'.

(** ** Well-formed states *)

(** What the data model asks of a session state: presets and draft have
    positive durations, the countdown has time left, and the active id
    names a preset. *)
Definition invariant (s : State) : Prop :=
  Forall (fun t => 0 < duration t) (timers s) /\
  (forall draft, editingTimer s = Some draft -> 0 < duration draft) /\
  0 < timeLeft s /\
  (exists t, findTimer (activeTimerId s) (timers s) = Some t).

(** ** Decimal numerals *)

(** The string whose code units are the decimal digits [ds]. *)
Definition digitString (ds : list Z) : string :=
  fold_right (fun d rest => String (digitChar d) rest) "" ds.

Definition isDigit (d : Z) : Prop := 0 <= d < 10.


(** ** The page title and the duration field *)

(** The title effect: the text it assigns to [document.title] when it
    runs for the state [s].  Its dependencies are all the values it reads,
    so after every commit the title is this text. *)
Definition documentTitle (s : State) : string :=
  let activeTimer := findTimer (activeTimerId s) (timers s) in
  match activeTimer with
  | Some timer =>
      if isActive s
      then name timer ++ " - " ++ formatTime (timeLeft s)
      else "Pomodoro Timer"
  | None => "Pomodoro Timer"
  end.


(** ** Observations on strings and event lists *)

(** Whether a colon occurs in a string. *)
Fixpoint hasColon (s : string) : bool :=
  match s with
  | EmptyString => false
  | String c rest => (c =? ":")%char || hasColon rest
  end.

(** The values [Date.now()] returned to the "Add New Timer" clicks of an
    event list, in order. *)
Fixpoint clockReadings (es : list Event) : list Z :=
  match es with
  | [] => []
  | ClickAddNewTimer now :: rest => now :: clockReadings rest
  | _ :: rest => clockReadings rest
  end.


(** ** Proof automation *)

(** Case analysis on a decimal digit [H : isDigit d]. *)
Ltac each_digit H :=
  let C := fresh "C" in
  match type of H with
  | isDigit ?d =>
      assert (C : d = 0 \/ d = 1 \/ d = 2 \/ d = 3 \/ d = 4 \/
                  d = 5 \/ d = 6 \/ d = 7 \/ d = 8 \/ d = 9)
        by (unfold isDigit in H; lia);
      clear H;
      repeat (destruct C as [C|C]; [subst; try reflexivity|]);
      subst; try reflexivity
  end.


(** Closes a goal of [commit_settles] once both commits are values. *)
Ltac settled :=
  cbn [bind fst snd Nat.add];
  split; [reflexivity | do 2 eexists; split; [reflexivity | lia]].

(** * Properties *)

(** ** The JavaScript primitives on examples *)

Example parseInt_decimal : parseInt "25" = Num 25.
Proof. reflexivity. Qed.

Example parseInt_blank_sign : parseInt "  +7" = Num 7.
Proof. reflexivity. Qed.

Example parseInt_negative : parseInt "-5" = Num (-5).
Proof. reflexivity. Qed.

Example parseInt_empty : parseInt "" = NaN.
Proof. reflexivity. Qed.

Example parseInt_letters : parseInt "abc" = NaN.
Proof. reflexivity. Qed.

Example parseInt_hex : parseInt "0x1F" = Num 31.
Proof. reflexivity. Qed.

Example parseInt_numeric_prefix : parseInt "12abc" = Num 12.
Proof. reflexivity. Qed.

Example parseInt_fraction : parseInt "1.9" = Num 1.
Proof. reflexivity. Qed.

Example parseInt_exponent : parseInt "1e3" = Num 1.
Proof. reflexivity. Qed.

Example toString_1500 : toString 1500 = "1500".
Proof. reflexivity. Qed.

Example toString_zero : toString 0 = "0".
Proof. reflexivity. Qed.

Example toString_negative : toString (-42) = "-42".
Proof. reflexivity. Qed.

Example toString_clock : toString 1700000000000 = "1700000000000".
Proof. reflexivity. Qed.

Example padStart_short : padStart 2 "0" "5" = "05".
Proof. reflexivity. Qed.

Example padStart_wide : padStart 2 "0" "100" = "100".
Proof. reflexivity. Qed.

Example padStart_cycles : padStart 6 "ab" "x" = "ababax".
Proof. reflexivity. Qed.

(** ** The commit loop *)

Lemma playNotificationSound_returns (h : Host) :
  exists actions, playNotificationSound h = Returned actions.
Proof.
  unfold playNotificationSound, twoToneChime.
  destruct (audioThrows h); simpl; eauto.
Qed.

Lemma handleTimerComplete_returns (h : Host) (s : State) :
  handleTimerComplete h s = Returned (completed s).
Proof.
  unfold handleTimerComplete, handleTimerCompleteWith.
  destruct (playNotificationSound_returns h) as [actions ->].
  reflexivity.
Qed.

Lemma sameDeps_refl (s : State) : sameDeps s s = true.
Proof.
  unfold sameDeps. rewrite Bool.eqb_reflx, Z.eqb_refl. reflexivity.
Qed.

Lemma sameDeps_timeLeft (a b : State) :
  sameDeps a b = true -> timeLeft a = timeLeft b.
Proof.
  unfold sameDeps. intros H. apply andb_true_iff in H as [_ H].
  now apply Z.eqb_eq.
Qed.

Lemma commit_unfold (fuel : nat) (h : Host) (prev cur : State) :
  commit (S fuel) h prev cur =
  if sameDeps prev cur then Returned (cur, 0%nat)
  else (r1 <- clockEffect h cur ;;
        r2 <- commit fuel h cur (fst r1) ;;
        Returned (fst r2, (snd r1 + snd r2)%nat)).
Proof. reflexivity. Qed.

Lemma clockEffect_nonzero (h : Host) (s : State) :
  timeLeft s <> 0 -> clockEffect h s = Returned (s, 0%nat).
Proof.
  intros Hne. unfold clockEffect, clockEffectWith.
  apply Z.eqb_neq in Hne. rewrite Hne.
  destruct (isActive s && (0 <? timeLeft s)); reflexivity.
Qed.

Lemma clockEffect_zero (h : Host) (s : State) :
  timeLeft s = 0 -> clockEffect h s = Returned (completed s, 1%nat).
Proof.
  intros Hz. unfold clockEffect, clockEffectWith.
  rewrite Hz, andb_false_r. cbn [Z.eqb].
  fold handleTimerComplete. rewrite handleTimerComplete_returns. reflexivity.
Qed.

Lemma commit_same (fuel : nat) (h : Host) (s : State) :
  commit fuel h s s = Returned (s, 0%nat).
Proof.
  destruct fuel; unfold commit; simpl; rewrite sameDeps_refl; reflexivity.
Qed.

Lemma timeLeft_completed (s : State) (t : Timer) :
  findTimer (activeTimerId s) (timers s) = Some t ->
  timeLeft (completed s) = duration t.
Proof.
  intros Hfind. unfold completed, resetTimer.
  change (activeTimerId (setCompletedPomodoros _ _)) with (activeTimerId s).
  change (timers (setCompletedPomodoros _ _)) with (timers s).
  rewrite Hfind. reflexivity.
Qed.

(** A commit of a state with time left makes no completion call. *)
Lemma commit_positive (fuel : nat) (h : Host) (prev cur : State) :
  0 < timeLeft cur ->
  commit (S fuel) h prev cur = Returned (cur, 0%nat).
Proof.
  intros Hpos. rewrite commit_unfold.
  destruct (sameDeps prev cur); [reflexivity|].
  rewrite clockEffect_nonzero by lia.
  cbn [bind fst snd]. rewrite commit_same. reflexivity.
Qed.

(** A commit of a state that has just reached zero calls
    [handleTimerComplete] once when the active preset has a duration. *)
Lemma commit_zero (fuel : nat) (h : Host) (prev cur : State) (t : Timer) :
  timeLeft cur = 0 ->
  timeLeft prev <> 0 ->
  findTimer (activeTimerId cur) (timers cur) = Some t ->
  0 < duration t ->
  commit (S (S fuel)) h prev cur = Returned (completed cur, 1%nat).
Proof.
  intros Hz Hprev Hfind Hdur.
  rewrite commit_unfold.
  destruct (sameDeps prev cur) eqn:Hsame.
  { apply sameDeps_timeLeft in Hsame. congruence. }
  rewrite clockEffect_zero by assumption.
  cbn [bind fst snd].
  rewrite commit_positive
    by (rewrite (timeLeft_completed cur t Hfind); exact Hdur).
  reflexivity.
Qed.

Lemma completed_fields (s : State) :
  timers (completed s) = timers s /\
  activeTimerId (completed s) = activeTimerId s /\
  isActive (completed s) = false /\
  completedPomodoros (completed s) = completedPomodoros s + 1 /\
  isEditing (completed s) = isEditing s /\
  editingTimer (completed s) = editingTimer s /\
  timeLeft (completed s) =
    match findTimer (activeTimerId s) (timers s) with
    | Some t => duration t
    | None => timeLeft s
    end.
Proof.
  unfold completed, resetTimer.
  change (activeTimerId (setCompletedPomodoros _ _)) with (activeTimerId s).
  change (timers (setCompletedPomodoros _ _)) with (timers s).
  destruct (findTimer (activeTimerId s) (timers s)); cbn; repeat split.
Qed.

(** The completion sequence is idempotent on the dependencies of the
    clock effect. *)
Lemma sameDeps_completed_twice (s : State) :
  sameDeps (completed s) (completed (completed s)) = true.
Proof.
  destruct (completed_fields s) as (Ht & Ha & Hi & _ & _ & _ & Hl).
  destruct (completed_fields (completed s)) as (_ & _ & Hi' & _ & _ & _ & Hl').
  unfold sameDeps. rewrite Hi, Hi', Hl'. rewrite Ht, Ha.
  destruct (findTimer (activeTimerId s) (timers s)) eqn:Hf.
  - rewrite Hl, Z.eqb_refl. reflexivity.
  - rewrite Z.eqb_refl. reflexivity.
Qed.

(** Two effect runs settle every commit: more fuel changes nothing, and
    the result is a state, reached after at most two completion calls. *)
Lemma commit_settles (fuel : nat) (h : Host) (prev cur : State) :
  commit (S (S fuel)) h prev cur = commit 2 h prev cur /\
  exists s' k, commit 2 h prev cur = Returned (s', k) /\ (k <= 2)%nat.
Proof.
  rewrite (commit_unfold (S fuel)), (commit_unfold 1).
  destruct (sameDeps prev cur); [settled|].
  destruct (Z.eq_dec (timeLeft cur) 0) as [Hz|Hnz].
  - rewrite clockEffect_zero by assumption. cbn [bind fst snd].
    rewrite (commit_unfold fuel), (commit_unfold 0).
    destruct (sameDeps cur (completed cur)); [settled|].
    destruct (Z.eq_dec (timeLeft (completed cur)) 0) as [Hz'|Hnz'].
    + rewrite clockEffect_zero by assumption. cbn [bind fst snd].
      assert (Hsame := sameDeps_completed_twice cur).
      assert (E : forall n, commit n h (completed cur) (completed (completed cur))
                            = Returned (completed (completed cur), 0%nat)).
      { intros [|n]; [unfold commit; simpl | rewrite commit_unfold];
          rewrite Hsame; reflexivity. }
      rewrite !E. settled.
    + rewrite clockEffect_nonzero by assumption. cbn [bind fst snd].
      rewrite !commit_same. settled.
  - rewrite clockEffect_nonzero by assumption. cbn [bind fst snd].
    rewrite !commit_same. settled.
Qed.


(** The render budget is not felt: any larger budget gives the same
    result. *)
Lemma dispatch_budget (fuel : nat) (h : Host) (e : Event) (s : State) :
  commit (renderBudget + fuel) h s (handler e s) = dispatch h e s.
Proof.
  unfold dispatch, renderBudget.
  destruct (commit_settles (1 + fuel) h s (handler e s)) as (E & _).
  destruct (commit_settles 1 h s (handler e s)) as (E' & _).
  cbn [Nat.add] in *. rewrite E, E'. reflexivity.
Qed.

(** ** Lookup of presets by id *)

Lemma findTimer_app (key : string) (l : list Timer) (x t : Timer) :
  findTimer key l = Some t -> findTimer key (l ++ [x]) = Some t.
Proof.
  unfold findTimer. induction l as [|a l IH]; simpl; [discriminate|].
  destruct (id a =? key)%string; auto.
Qed.

Lemma findTimer_map (key : string) (f : Timer -> Timer) (l : list Timer) :
  (forall t, id (f t) = id t) ->
  findTimer key (map f l) = option_map f (findTimer key l).
Proof.
  intros Hid. unfold findTimer. induction l as [|a l IH]; simpl; [reflexivity|].
  rewrite Hid. destruct (id a =? key)%string; auto.
Qed.

Lemma findTimer_In (key : string) (l : list Timer) (t : Timer) :
  findTimer key l = Some t -> In t l /\ id t = key.
Proof.
  unfold findTimer. intros H. apply find_some in H as [Hin Heq].
  split; [assumption|]. now apply String.eqb_eq.
Qed.

Lemma findTimer_member (l : list Timer) (t : Timer) :
  In t l -> exists t', findTimer (id t) l = Some t'.
Proof.
  unfold findTimer. induction l as [|a l IH]; simpl; [contradiction|].
  intros [->|Hin].
  - rewrite String.eqb_refl. eauto.
  - destruct (id a =? id t)%string; eauto.
Qed.

(** ** The invariant of the session state *)

Lemma invariant_initialState : invariant initialState.
Proof.
  unfold invariant, initialState; simpl. repeat split.
  - repeat constructor.
  - discriminate.
  - eexists; reflexivity.
Qed.

Lemma duration_found (s : State) (t : Timer) :
  invariant s -> findTimer (activeTimerId s) (timers s) = Some t -> 0 < duration t.
Proof.
  intros (Hd & _) Hf. apply findTimer_In in Hf as [Hin _].
  rewrite Forall_forall in Hd. auto.
Qed.

Lemma invariant_resetTimer (s : State) : invariant s -> invariant (resetTimer s).
Proof.
  intros Hinv. pose proof Hinv as (Hd & He & Hl & t & Hf).
  unfold resetTimer. rewrite Hf.
  repeat split; simpl; eauto using duration_found.
Qed.

Lemma invariant_toggleTimer (s : State) : invariant s -> invariant (toggleTimer s).
Proof. intros (Hd & He & Hl & Hf). repeat split; simpl; eauto. Qed.

Lemma invariant_addNewTimer (now : Z) (s : State) :
  invariant s -> invariant (addNewTimer now s).
Proof.
  intros (Hd & He & Hl & t & Hf). unfold addNewTimer. repeat split; simpl; eauto.
  - apply Forall_app. split; [assumption|]. repeat constructor.
  - exists t. now apply findTimer_app.
Qed.

Lemma invariant_selectTimer (timer : Timer) (s : State) :
  In timer (timers s) -> invariant s -> invariant (selectTimer timer s).
Proof.
  intros Hin (Hd & He & Hl & Hf). repeat split; simpl; eauto.
  - rewrite Forall_forall in Hd. auto.
  - now apply findTimer_member.
Qed.

Lemma invariant_startEditing (timer : Timer) (s : State) :
  In timer (timers s) -> invariant s -> invariant (startEditing timer s).
Proof.
  intros Hin (Hd & He & Hl & Hf). repeat split; simpl; eauto.
  intros draft [= <-]. simpl. rewrite Forall_forall in Hd. auto.
Qed.

Lemma invariant_handleNameChange (text : string) (s : State) :
  invariant s -> invariant (handleNameChange text s).
Proof.
  intros Hinv. unfold handleNameChange.
  destruct (editingTimer s) as [draft|] eqn:E; [|exact Hinv].
  destruct Hinv as (Hd & He & Hl & Hf). repeat split; simpl; eauto.
  intros d [= <-]. simpl. auto.
Qed.

Lemma invariant_handleDurationChange (minutes : string) (s : State) :
  invariant s -> invariant (handleDurationChange minutes s).
Proof.
  intros Hinv. unfold handleDurationChange.
  destruct (editingTimer s) as [draft|] eqn:E; [|exact Hinv].
  destruct (mul (parseInt minutes) 60) as [|d] eqn:M; simpl; [exact Hinv|].
  destruct (0 <? d) eqn:Hpos; [|exact Hinv].
  apply Z.ltb_lt in Hpos. destruct Hinv as (Hd & He & Hl & Hf).
  repeat split; simpl; eauto. intros d' [= <-]. exact Hpos.
Qed.

Lemma invariant_saveEdit (s : State) : invariant s -> invariant (saveEdit s).
Proof.
  intros (Hd & He & Hl & t & Hf). unfold saveEdit.
  destruct (editingTimer s) as [draft|] eqn:E.
  - specialize (He draft eq_refl).
    set (f := fun timer : Timer =>
                if (id timer =? id draft)%string
                then {| id := id timer; name := name draft; duration := duration draft |}
                else timer).
    assert (Hid : forall x, id (f x) = id x).
    { intros x. unfold f. destruct (id x =? id draft)%string; reflexivity. }
    assert (Hdur : Forall (fun x => 0 < duration x) (map f (timers s))).
    { rewrite Forall_forall in *. intros x Hx. apply in_map_iff in Hx as (y & <- & Hy).
      unfold f. destruct (id y =? id draft)%string; simpl; auto. }
    assert (Hfind : exists t', findTimer (activeTimerId s) (map f (timers s)) = Some t').
    { rewrite (findTimer_map _ f _ Hid), Hf. simpl. eauto. }
    destruct (activeTimerId s =? id draft)%string; repeat split; simpl; auto;
      discriminate.
  - repeat split; simpl; eauto; discriminate.
Qed.

(** The interval callback keeps everything but the countdown, which stays
    non-negative. *)
Lemma intervalCallback_fields (s : State) :
  timers (intervalCallback s) = timers s /\
  activeTimerId (intervalCallback s) = activeTimerId s /\
  isActive (intervalCallback s) = isActive s /\
  completedPomodoros (intervalCallback s) = completedPomodoros s /\
  isEditing (intervalCallback s) = isEditing s /\
  editingTimer (intervalCallback s) = editingTimer s /\
  timeLeft (intervalCallback s) = timeLeft s - 1.
Proof. repeat split. Qed.

Lemma invariant_completed (s : State) :
  Forall (fun t => 0 < duration t) (timers s) ->
  (forall draft, editingTimer s = Some draft -> 0 < duration draft) ->
  (exists t, findTimer (activeTimerId s) (timers s) = Some t) ->
  invariant (completed s).
Proof.
  intros Hd He (t & Hf).
  destruct (completed_fields s) as (Ht & Ha & _ & _ & _ & Hed & Hl).
  unfold invariant. rewrite Ht, Ha, Hed, Hl, Hf. repeat split; eauto.
  apply findTimer_In in Hf as [Hin _]. rewrite Forall_forall in Hd. auto.
Qed.

(** Events other than a tick leave time on the clock. *)
Lemma invariant_handler (e : Event) (s : State) :
  e <> Tick -> invariant s -> invariant (handler e s).
Proof.
  intros Hne Hinv. destruct e; simpl; try congruence;
    destruct (editView s); auto using invariant_toggleTimer, invariant_resetTimer,
      invariant_addNewTimer, invariant_handleNameChange,
      invariant_handleDurationChange, invariant_saveEdit.
  - destruct (nth_error (timers s) i) as [timer|] eqn:E; auto.
    apply invariant_selectTimer; eauto using nth_error_In.
  - destruct (nth_error (timers s) i) as [timer|] eqn:E; auto.
    apply invariant_startEditing; eauto using nth_error_In.
Qed.

(** An event other than a tick is its handler: the commit that follows
    makes no completion call. *)
Lemma dispatch_quiet (h : Host) (e : Event) (s : State) :
  e <> Tick -> invariant s -> dispatch h e s = Returned (handler e s, 0%nat).
Proof.
  intros Hne Hinv. unfold dispatch, renderBudget.
  apply commit_positive. now apply (invariant_handler e s Hne).
Qed.

(** A tick with more than one second left only decrements. *)
Lemma dispatch_tick_running (h : Host) (s : State) :
  isActive s = true -> 1 < timeLeft s ->
  dispatch h Tick s = Returned (intervalCallback s, 0%nat).
Proof.
  intros Hact Hl. unfold dispatch, renderBudget, handler.
  assert (Hlt : (0 <? timeLeft s) = true) by (apply Z.ltb_lt; lia).
  rewrite Hact, Hlt. simpl andb. cbv iota.
  apply commit_positive. simpl. lia.
Qed.

(** The tick that takes the last second runs the completion sequence,
    once. *)
Lemma dispatch_tick_last (h : Host) (s : State) (t : Timer) :
  isActive s = true -> timeLeft s = 1 ->
  findTimer (activeTimerId s) (timers s) = Some t -> 0 < duration t ->
  dispatch h Tick s = Returned (completed (intervalCallback s), 1%nat).
Proof.
  intros Hact Hl Hf Hd. unfold dispatch, renderBudget, handler.
  rewrite Hact, Hl. simpl andb. cbv iota.
  apply (commit_zero 1 h s (intervalCallback s) t); simpl; auto; lia.
Qed.

(** Without an armed interval there is no tick. *)
Lemma dispatch_tick_idle (h : Host) (s : State) :
  isActive s && (0 <? timeLeft s) = false ->
  dispatch h Tick s = Returned (s, 0%nat).
Proof.
  intros Hidle. unfold dispatch, renderBudget, handler. rewrite Hidle.
  apply commit_same.
Qed.

Lemma invariant_dispatch (h : Host) (e : Event) (s s' : State) (k : nat) :
  invariant s -> dispatch h e s = Returned (s', k) -> invariant s'.
Proof.
  intros Hinv Hd.
  destruct (match e with Tick => true | _ => false end) eqn:Ht.
  - destruct e; try discriminate.
    destruct (isActive s && (0 <? timeLeft s)) eqn:Harm.
    + apply andb_true_iff in Harm as [Hact Hpos]. apply Z.ltb_lt in Hpos.
      pose proof Hinv as (Hdur & Hdraft & Hleft & t & Hf).
      destruct (Z.eq_dec (timeLeft s) 1) as [H1|H1].
      * rewrite (dispatch_tick_last h s t) in Hd;
          eauto using duration_found.
        injection Hd as <- _.
        apply invariant_completed; simpl; eauto.
      * rewrite dispatch_tick_running in Hd by (auto; lia).
        injection Hd as <- _.
        repeat split; simpl; eauto. lia.
    + rewrite dispatch_tick_idle in Hd by assumption.
      injection Hd as <- _. assumption.
  - assert (Hne : e <> Tick) by (intros ->; discriminate).
    rewrite dispatch_quiet in Hd by assumption.
    injection Hd as <- _. now apply invariant_handler.
Qed.

(** Every reachable state satisfies the invariant. *)
Lemma reachable_invariant (s : State) : reachable s -> invariant s.
Proof.
  induction 1 as [|h e s s' k _ IH Hd].
  - apply invariant_initialState.
  - eapply invariant_dispatch; eauto.
Qed.

(** ** Resetting the countdown *)

(** C10. [resetTimer] always stops the countdown.  When the active id
    names a preset, the time left becomes that preset's stored duration;
    when it names none, the time left stays as it was and the handler
    still returns.  Presets, active id, completed count, edit flag and
    draft are the same in both cases. *)
Theorem resetTimer_spec (s : State) :
  isActive (resetTimer s) = false /\
  (forall currentTimer,
      findTimer (activeTimerId s) (timers s) = Some currentTimer ->
      timeLeft (resetTimer s) = duration currentTimer) /\
  (findTimer (activeTimerId s) (timers s) = None ->
      timeLeft (resetTimer s) = timeLeft s) /\
  timers (resetTimer s) = timers s /\
  activeTimerId (resetTimer s) = activeTimerId s /\
  completedPomodoros (resetTimer s) = completedPomodoros s /\
  isEditing (resetTimer s) = isEditing s /\
  editingTimer (resetTimer s) = editingTimer s.
Proof.
  unfold resetTimer.
  destruct (findTimer (activeTimerId s) (timers s)) as [t|];
    simpl; repeat split; try discriminate; intros ? [= <-]; reflexivity.
Qed.

(** ** Adding a preset *)

(** C6. [addNewTimer] appends exactly one preset, named "New Timer" and
    1500 seconds long, after the existing presets, which keep their
    places; active id, time left, run flag, completed count, edit flag
    and draft are unchanged. *)
Theorem addNewTimer_spec (now : Z) (s : State) :
  (exists newTimer,
      timers (addNewTimer now s) = (timers s ++ [newTimer])%list /\
      name newTimer = "New Timer" /\
      duration newTimer = 1500 /\
      id newTimer = toString now) /\
  List.length (timers (addNewTimer now s)) = S (List.length (timers s)) /\
  (forall i, (i < List.length (timers s))%nat ->
      nth_error (timers (addNewTimer now s)) i = nth_error (timers s) i) /\
  activeTimerId (addNewTimer now s) = activeTimerId s /\
  timeLeft (addNewTimer now s) = timeLeft s /\
  isActive (addNewTimer now s) = isActive s /\
  completedPomodoros (addNewTimer now s) = completedPomodoros s /\
  isEditing (addNewTimer now s) = isEditing s /\
  editingTimer (addNewTimer now s) = editingTimer s.
Proof.
  unfold addNewTimer; simpl. repeat split.
  - eexists. repeat split.
  - rewrite length_app. simpl. lia.
  - intros i Hi. now apply nth_error_app1.
Qed.

(** The event as a whole: the commit after [addNewTimer] does not even
    run the clock effect, in any state. *)
Lemma dispatch_addNewTimer (h : Host) (now : Z) (s : State) :
  editView s = false ->
  dispatch h (ClickAddNewTimer now) s = Returned (addNewTimer now s, 0%nat).
Proof.
  intros Hview. unfold dispatch, renderBudget, handler. rewrite Hview.
  rewrite commit_unfold.
  change (sameDeps s (addNewTimer now s)) with (sameDeps s s).
  rewrite sameDeps_refl. reflexivity.
Qed.

(** ** Selecting a preset *)

Lemma findTimer_unique (l : list Timer) (t : Timer) :
  NoDup (map id l) -> In t l -> findTimer (id t) l = Some t.
Proof.
  unfold findTimer. induction l as [|a l IH]; simpl; [contradiction|].
  intros Hnd [->|Hin].
  - now rewrite String.eqb_refl.
  - inversion Hnd as [|x xs Hnotin Hnd']; subst.
    destruct (id a =? id t)%string eqn:E; [|auto].
    apply String.eqb_eq in E. exfalso. apply Hnotin. rewrite E.
    now apply in_map.
Qed.

(** C5. Clicking the button of a preset of the collection makes its id
    the active id, sets the time left to its stored duration and stops the
    countdown, whatever the state was; nothing else changes.  The click on
    the [i]-th button is that handler, and with unique ids the active id
    then resolves to the selected preset. *)
Theorem selectTimer_spec (s : State) (timer : Timer) :
  In timer (timers s) ->
  activeTimerId (selectTimer timer s) = id timer /\
  timeLeft (selectTimer timer s) = duration timer /\
  isActive (selectTimer timer s) = false /\
  timers (selectTimer timer s) = timers s /\
  completedPomodoros (selectTimer timer s) = completedPomodoros s /\
  isEditing (selectTimer timer s) = isEditing s /\
  editingTimer (selectTimer timer s) = editingTimer s /\
  (forall i, editView s = false -> nth_error (timers s) i = Some timer ->
      handler (ClickSelect i) s = selectTimer timer s) /\
  (NoDup (map id (timers s)) ->
      findTimer (activeTimerId (selectTimer timer s))
                (timers (selectTimer timer s)) = Some timer).
Proof.
  intros Hin. repeat split.
  - intros i Hview Hnth. simpl. rewrite Hview, Hnth. reflexivity.
  - intros Hnd. simpl. now apply findTimer_unique.
Qed.

Lemma selectTimer_spec_witness :
  In (mkTimer "1" "Work" 1500) (timers (setIsActive true initialState)) /\
  timeLeft (selectTimer (mkTimer "1" "Work" 1500)
                        (setIsActive true (setTimeLeft 7 initialState))) = 1500 /\
  isActive (selectTimer (mkTimer "1" "Work" 1500)
                        (setIsActive true (setTimeLeft 7 initialState))) = false.
Proof.
  split; [left; reflexivity|].
  pose proof (selectTimer_spec (setIsActive true (setTimeLeft 7 initialState))
                (mkTimer "1" "Work" 1500) (or_introl eq_refl)) as H.
  split; apply H.
Defined.

(** ** Committing an edit *)

(** C4. With a draft in place, [saveEdit] keeps the number and order of
    the presets, gives every preset whose id is the draft's id the draft's
    name and duration (its id stays) and leaves the others alone; when the
    active id is the draft's id the time left becomes the draft's
    duration, and otherwise it is kept; the run flag is not touched; the
    draft is cleared and the edit flag set to false. *)
Theorem saveEdit_spec (s : State) (draft : EditingTimer) :
  editingTimer s = Some draft ->
  List.length (timers (saveEdit s)) = List.length (timers s) /\
  (forall i timer, nth_error (timers s) i = Some timer ->
      exists timer', nth_error (timers (saveEdit s)) i = Some timer' /\
        id timer' = id timer /\
        (id timer = id draft ->
           name timer' = name draft /\ duration timer' = duration draft) /\
        (id timer <> id draft -> timer' = timer)) /\
  (activeTimerId s = id draft -> timeLeft (saveEdit s) = duration draft) /\
  (activeTimerId s <> id draft -> timeLeft (saveEdit s) = timeLeft s) /\
  isActive (saveEdit s) = isActive s /\
  activeTimerId (saveEdit s) = activeTimerId s /\
  completedPomodoros (saveEdit s) = completedPomodoros s /\
  editingTimer (saveEdit s) = None /\
  isEditing (saveEdit s) = false.
Proof.
  intros Hdraft. unfold saveEdit. rewrite Hdraft.
  destruct (activeTimerId s =? id draft)%string eqn:Hact; simpl;
    (split; [apply length_map|]);
    (split; [intros i timer Hnth; rewrite nth_error_map, Hnth; simpl;
             eexists; split; [reflexivity|];
             destruct (id timer =? id draft)%string eqn:E;
             [apply String.eqb_eq in E | apply String.eqb_neq in E];
             simpl; repeat split; congruence|]).
  - apply String.eqb_eq in Hact. repeat split; congruence.
  - apply String.eqb_neq in Hact. repeat split; congruence.
Qed.

Lemma saveEdit_spec_witness :
  let s := setIsActive true
             (setTimeLeft 700
                (startEditing (mkTimer "1" "Work" 600) initialState)) in
  editingTimer s = Some (mkTimer "1" "Work" 600) /\
  timeLeft (saveEdit s) = 600 /\ isActive (saveEdit s) = true /\
  editingTimer (saveEdit s) = None /\ isEditing (saveEdit s) = false.
Proof.
  intros s.
  pose proof (saveEdit_spec s (mkTimer "1" "Work" 600) eq_refl)
    as (_ & _ & Hl & _ & Ha & _ & _ & He & Hi).
  split; [reflexivity|].
  split; [apply Hl; reflexivity|].
  split; [rewrite Ha; reflexivity|].
  split; assumption.
Defined.

(** ** Decimal numerals: printing and parsing *)

Lemma digit_cases (d : Z) :
  isDigit d ->
  d = 0 \/ d = 1 \/ d = 2 \/ d = 3 \/ d = 4 \/
  d = 5 \/ d = 6 \/ d = 7 \/ d = 8 \/ d = 9.
Proof. unfold isDigit. lia. Qed.

Lemma digitsOf_step (fuel : nat) (n : Z) (acc : string) :
  digitsOf (S fuel) n acc =
  if n <? 10 then String (digitChar (n mod 10)) acc
  else digitsOf fuel (n / 10) (String (digitChar (n mod 10)) acc).
Proof. reflexivity. Qed.

Lemma digitValue_digitChar (d : Z) :
  isDigit d -> digitValue (digitChar d) = Some d.
Proof. intros H. each_digit H. Qed.

Lemma digitChar_not_blank (d : Z) :
  isDigit d -> isWhiteSpace (digitChar d) = false.
Proof. intros H. each_digit H. Qed.

Lemma digitChar_not_sign (d : Z) :
  isDigit d ->
  (digitChar d =? "-")%char = false /\ (digitChar d =? "+")%char = false.
Proof. intros H. each_digit H; split; reflexivity. Qed.

Lemma digitChar_not_x (d : Z) :
  isDigit d ->
  ((digitChar d =? "x") || (digitChar d =? "X"))%char = false.
Proof. intros H. each_digit H. Qed.

Lemma digitString_app (a b : list Z) :
  digitString (a ++ b) = digitString a ++ digitString b.
Proof. induction a as [|d a IH]; simpl; [reflexivity|]. now rewrite IH. Qed.

Lemma string_app_empty (a : string) : a ++ "" = a.
Proof. induction a as [|x a IH]; simpl; [reflexivity|]. now rewrite IH. Qed.

Lemma string_app_assoc (a b c : string) : (a ++ b) ++ c = a ++ (b ++ c).
Proof. induction a as [|x a IH]; simpl; [reflexivity|]. now rewrite IH. Qed.

Lemma string_app_length (a b : string) :
  String.length (a ++ b) = (String.length a + String.length b)%nat.
Proof. induction a as [|x a IH]; simpl; [reflexivity|]. now rewrite IH. Qed.


Lemma mathInt_snoc (R : Z) (ds : list Z) (d : Z) :
  mathInt R (ds ++ [d]) = mathInt R ds * R + d.
Proof. unfold mathInt. rewrite fold_left_app. reflexivity. Qed.

(** The digit prefix of a digit string followed by [rest]. *)
Lemma digitPrefix_digitString (ds : list Z) (rest : string) :
  Forall isDigit ds ->
  digitPrefix 10 (digitString ds ++ rest) = (ds ++ digitPrefix 10 rest)%list.
Proof.
  induction 1 as [|d ds Hd _ IH]; simpl; [reflexivity|].
  rewrite (digitValue_digitChar d Hd).
  destruct Hd as [_ Hd]. apply Z.ltb_lt in Hd. rewrite Hd, IH. reflexivity.
Qed.

(** [digitsOf] writes the decimal digits of [n] in front of [acc]. *)
Lemma digitsOf_digits (fuel : nat) :
  forall (n : Z) (acc : string),
    0 <= n < 10 ^ Z.of_nat (S fuel) ->
    exists ds,
      digitsOf (S fuel) n acc = digitString ds ++ acc /\
      ds <> [] /\ Forall isDigit ds /\ mathInt 10 ds = n.
Proof.
  induction fuel as [|fuel IH]; intros n acc Hn.
  - change (10 ^ Z.of_nat 1) with 10 in Hn.
    assert (Hlt : (n <? 10) = true) by (apply Z.ltb_lt; lia).
    exists [n]. simpl. rewrite Hlt, Z.mod_small by lia.
    repeat split; try discriminate; try lia.
    repeat constructor; lia.
  - rewrite digitsOf_step. destruct (n <? 10) eqn:Hlt.
    + apply Z.ltb_lt in Hlt. exists [n]. simpl. rewrite Z.mod_small by lia.
      repeat split; try discriminate; try lia.
      repeat constructor; lia.
    + apply Z.ltb_ge in Hlt.
      assert (Hq : 0 <= n / 10 < 10 ^ Z.of_nat (S fuel)).
      { split; [apply Z.div_pos; lia|].
        apply Z.div_lt_upper_bound; [lia|].
        rewrite (Nat2Z.inj_succ (S fuel)), Z.pow_succ_r in Hn by lia. lia. }
      destruct (IH (n / 10) (String (digitChar (n mod 10)) acc) Hq)
        as (ds & E & _ & Hds & Hv).
      exists (ds ++ [n mod 10])%list.
      rewrite E, digitString_app, string_app_assoc.
      repeat split.
      * intros Habs. apply app_eq_nil in Habs as [_ Habs]. discriminate.
      * apply Forall_app. split; [assumption|].
        repeat constructor; apply Z.mod_pos_bound; lia.
      * rewrite mathInt_snoc, Hv. pose proof (Z.div_mod n 10). lia.
Qed.

Lemma digitFuel_enough (n : Z) : 0 <= n -> n < 10 ^ Z.of_nat (digitFuel n).
Proof.
  intros Hn. unfold digitFuel.
  rewrite Nat2Z.inj_succ, Z2Nat.id by apply Z.log2_nonneg.
  destruct (Z.eq_dec n 0) as [->|Hnz]; [reflexivity|].
  pose proof (Z.log2_spec n ltac:(lia)) as [_ Hup].
  eapply Z.lt_le_trans; [exact Hup|].
  apply Z.pow_le_mono_l. lia.
Qed.

(** The numeral of a non-negative integer. *)
Lemma toString_digits (n : Z) :
  0 <= n ->
  exists ds, toString n = digitString ds /\
             ds <> [] /\ Forall isDigit ds /\ mathInt 10 ds = n.
Proof.
  intros Hn. unfold toString.
  assert (Hlt : (n <? 0) = false) by (apply Z.ltb_ge; lia). rewrite Hlt.
  destruct (digitsOf_digits (Z.to_nat (Z.log2 n)) n "") as (ds & E & H).
  { split; [assumption|]. apply (digitFuel_enough n Hn). }
  exists ds. split; [|exact H].
  unfold digitFuel. rewrite E. apply string_app_empty.
Qed.

(** A decimal numeral has no [0x] prefix and is its own digit prefix. *)
Lemma digitString_body (d : Z) (ds : list Z) :
  Forall isDigit (d :: ds) ->
  trimStart (digitString (d :: ds)) = digitString (d :: ds) /\
  readSign (digitString (d :: ds)) = (1, digitString (d :: ds)) /\
  stripPrefix (digitString (d :: ds)) = (10, digitString (d :: ds)) /\
  digitPrefix 10 (digitString (d :: ds)) = d :: ds.
Proof.
  intros Hds. inversion Hds as [|? ? Hd Hds']; subst.
  split; [simpl; now rewrite digitChar_not_blank|].
  split; [simpl; destruct (digitChar_not_sign d Hd) as [-> ->]; reflexivity|].
  split.
  - simpl. destruct ds as [|d1 ds1]; [reflexivity|]. simpl.
    inversion Hds' as [|? ? Hd1 _]; subst.
    rewrite (digitChar_not_x d1 Hd1), andb_false_r. reflexivity.
  - rewrite <- (string_app_empty (digitString (d :: ds))).
    rewrite digitPrefix_digitString by assumption.
    simpl digitPrefix. apply app_nil_r.
Qed.

(** [parseInt] reads a string of decimal digits as the number they
    spell. *)
Lemma parseInt_digitString (ds : list Z) :
  ds <> [] -> Forall isDigit ds ->
  parseInt (digitString ds) = Num (mathInt 10 ds).
Proof.
  intros Hne Hds. destruct ds as [|d ds]; [congruence|].
  destruct (digitString_body d ds Hds) as (Ht & Hs & Hp & Hb).
  unfold parseInt. rewrite Ht, Hs, Hp, Hb, Z.mul_1_l. reflexivity.
Qed.

(** A minus sign in front negates the value. *)
Lemma parseInt_minus (ds : list Z) :
  ds <> [] -> Forall isDigit ds ->
  parseInt (String "-" (digitString ds)) = Num (- mathInt 10 ds).
Proof.
  intros Hne Hds. destruct ds as [|d ds]; [congruence|].
  destruct (digitString_body d ds Hds) as (_ & _ & Hp & Hb).
  unfold parseInt.
  change (trimStart (String "-" (digitString (d :: ds))))
    with (String "-" (digitString (d :: ds))).
  change (readSign (String "-" (digitString (d :: ds))))
    with (-1, digitString (d :: ds)).
  cbv beta iota. rewrite Hp, Hb. f_equal.
Qed.

(** Parsing the numeral of an integer gives the integer back. *)
Lemma parseInt_toString (n : Z) : parseInt (toString n) = Num n.
Proof.
  destruct (Z.lt_ge_cases n 0) as [Hneg|Hpos].
  - destruct (toString_digits (- n)) as (ds & E & Hne & Hds & Hv); [lia|].
    unfold toString in *.
    assert (Hlt : (n <? 0) = true) by now apply Z.ltb_lt.
    assert (Hlt' : (- n <? 0) = false) by (apply Z.ltb_ge; lia).
    rewrite Hlt' in E. rewrite Hlt, E, parseInt_minus, Hv by assumption.
    f_equal. lia.
  - destruct (toString_digits n Hpos) as (ds & E & Hne & Hds & Hv).
    rewrite E, parseInt_digitString, Hv by assumption. reflexivity.
Qed.

(** ** Editing the duration of the draft *)




(** What [parseInt] makes of inputs that are not plain numerals: a numeric
    prefix counts, the rest of the input is dropped. *)
Example handleDurationChange_prefix :
  let s := startEditing (mkTimer "1" "Work" 1500) initialState in
  handleDurationChange "12abc" s = setEditingTimer (Some (mkTimer "1" "Work" 720)) s /\
  handleDurationChange "1.5" s = setEditingTimer (Some (mkTimer "1" "Work" 60)) s /\
  handleDurationChange "0.5" s = s /\
  handleDurationChange "" s = s.
Proof. repeat split. Qed.

(** ** Formatting the countdown *)









(** ** The countdown *)

Lemma run_ticks (h : Host) (n : nat) (s : State) :
  run h (repeat Tick n) s = ticks n h s.
Proof.
  revert s. induction n as [|n IH]; intros s; simpl; [reflexivity|].
  destruct (dispatch h Tick s) as [[s1 k1]| |]; simpl; try reflexivity.
  now rewrite IH.
Qed.

Lemma ticks_step (h : Host) (n : nat) (s : State) :
  ticks (S n) h s =
  (r1 <- dispatch h Tick s ;;
   r2 <- ticks n h (fst r1) ;;
   Returned (fst r2, (snd r1 + snd r2)%nat)).
Proof. reflexivity. Qed.



(** From a running countdown with [n + 1] seconds left, [n + 1] ticks end
    in one run of the completion sequence. *)
Lemma ticks_to_completion (h : Host) (n : nat) :
  forall s t, isActive s = true -> timeLeft s = Z.of_nat (S n) ->
    findTimer (activeTimerId s) (timers s) = Some t -> 0 < duration t ->
    ticks (S n) h s = Returned (completed (setTimeLeft 0 s), 1%nat).
Proof.
  induction n as [|n IH]; intros s t Hact Hleft Hfind Hdur.
  - rewrite ticks_step, (dispatch_tick_last h s t) by assumption.
    cbn [bind fst snd ticks Nat.add]. do 2 f_equal.
    unfold intervalCallback. now rewrite Hleft.
  - rewrite ticks_step, dispatch_tick_running by (auto; lia).
    cbn [bind fst snd].
    rewrite (IH (intervalCallback s) t) by (simpl; auto; lia).
    reflexivity.
Qed.

(** Launch from an idle state, then as many ticks as seconds are left. *)
Lemma run_launch_ticks (h : Host) (s : State) (t : Timer) (n : nat) :
  isActive s = false -> editView s = false ->
  timeLeft s = Z.of_nat (S n) ->
  findTimer (activeTimerId s) (timers s) = Some t -> 0 < duration t ->
  dispatch h ClickLaunch s = Returned (toggleTimer s, 0%nat) /\
  run h (ClickLaunch :: repeat Tick (S n)) s =
    Returned (completed (setTimeLeft 0 (toggleTimer s)), 1%nat).
Proof.
  intros Hidle Hview Hleft Hfind Hdur.
  assert (Hlaunch : dispatch h ClickLaunch s = Returned (toggleTimer s, 0%nat)).
  { unfold dispatch, renderBudget. cbn [handler]. rewrite Hview.
    apply commit_positive. simpl. lia. }
  split; [exact Hlaunch|].
  cbn [run]. rewrite Hlaunch. cbn [bind fst snd].
  rewrite run_ticks, (ticks_to_completion h n (toggleTimer s) t); auto.
  unfold toggleTimer. simpl. now rewrite Hidle.
Qed.



(** The scenario of the specification: the default state, Launch and 1500
    ticks. *)
Example default_session (h : Host) :
  run h (ClickLaunch :: repeat Tick 1500) initialState =
  Returned (setCompletedPomodoros 1 initialState, 1%nat).
Proof.
  destruct (run_launch_ticks h initialState (mkTimer "1" "Work" 1500) 1499
              eq_refl eq_refl eq_refl eq_refl eq_refl) as [_ Hrun].
  exact Hrun.
Qed.

(** ** Ticks *)




(** ** Preset ids *)

Lemma toString_injective (a b : Z) : toString a = toString b -> a = b.
Proof.
  intros E. pose proof (parseInt_toString a) as Ha.
  rewrite E, parseInt_toString in Ha. now injection Ha.
Qed.

(** Ids are given when a preset is created and never change: every
    handler keeps the list of ids, except [addNewTimer], which appends the
    id made from the clock. *)
Lemma handler_ids (e : Event) (s : State) :
  map id (timers (handler e s)) =
  match e with
  | ClickAddNewTimer now =>
      if editView s then map id (timers s)
      else (map id (timers s) ++ [toString now])%list
  | _ => map id (timers s)
  end.
Proof.
  assert (Hsave : map id (timers (saveEdit s)) = map id (timers s)).
  { unfold saveEdit. destruct (editingTimer s) as [draft|]; [|reflexivity].
    assert (E : map id (map (fun timer : Timer =>
                if (id timer =? id draft)%string
                then {| id := id timer; name := name draft; duration := duration draft |}
                else timer) (timers s)) = map id (timers s)).
    { rewrite map_map. apply map_ext. intros t.
      destruct (id t =? id draft)%string; reflexivity. }
    destruct (activeTimerId s =? id draft)%string; simpl; exact E. }
  assert (Hdur : forall minutes,
            map id (timers (handleDurationChange minutes s)) = map id (timers s)).
  { intros minutes. unfold handleDurationChange.
    destruct (editingTimer s); [|reflexivity].
    destruct (mul (parseInt minutes) 60) as [|d]; simpl; [reflexivity|].
    destruct (0 <? d); reflexivity. }
  assert (Hname : forall text,
            map id (timers (handleNameChange text s)) = map id (timers s)).
  { intros text. unfold handleNameChange. destruct (editingTimer s); reflexivity. }
  assert (Hreset : map id (timers (resetTimer s)) = map id (timers s)).
  { unfold resetTimer.
    destruct (findTimer (activeTimerId s) (timers s)); reflexivity. }
  destruct e; cbn [handler]; destruct (editView s); auto.
  - unfold addNewTimer. simpl. now rewrite map_app.
  - destruct (nth_error (timers s) i); reflexivity.
  - destruct (nth_error (timers s) i); reflexivity.
  - destruct (isActive s && (0 <? timeLeft s)); reflexivity.
  - destruct (isActive s && (0 <? timeLeft s)); reflexivity.
Qed.

(** Ids stay unique as long as the clock value of each [addNewTimer] gives
    an id that no preset has. *)
Lemma addNewTimer_fresh_id (now : Z) (s : State) :
  NoDup (map id (timers s)) ->
  ~ In (toString now) (map id (timers s)) ->
  NoDup (map id (timers (addNewTimer now s))).
Proof.
  intros Hnd Hfresh. unfold addNewTimer. simpl. rewrite map_app. simpl.
  apply NoDup_app; [assumption | repeat constructor; intros [] | ].
  intros x Hx [<-|[]]. contradiction.
Qed.

(** C7 fails on the code: two clicks on "Add New Timer" that read the
    same value of [Date.now()] create two presets with one id, in a
    reachable state; a later edit of either then rewrites both. *)
Theorem addNewTimer_duplicate_ids :
  let h := mkHost false None in
  let twice := addNewTimer 1700000000000 (addNewTimer 1700000000000 initialState) in
  run h [ClickAddNewTimer 1700000000000; ClickAddNewTimer 1700000000000] initialState
    = Returned (twice, 0%nat) /\
  reachable twice /\
  map id (timers twice) = ["1"; "1700000000000"; "1700000000000"]%list /\
  ~ NoDup (map id (timers twice)) /\
  (exists edited,
     run h [ClickEdit 2; NameInput "Break"; DurationInput "5"; ClickConfirm] twice
       = Returned (edited, 0%nat) /\
     nth_error (timers edited) 1 = Some (mkTimer "1700000000000" "Break" 300) /\
     nth_error (timers edited) 2 = Some (mkTimer "1700000000000" "Break" 300)).
Proof.
  intros h twice.
  split; [reflexivity|].
  split.
  { apply (reachable_event h (ClickAddNewTimer 1700000000000)
             (addNewTimer 1700000000000 initialState) twice 0%nat);
      [|reflexivity].
    apply (reachable_event h (ClickAddNewTimer 1700000000000)
             initialState _ 0%nat); [apply reachable_mount | reflexivity]. }
  split; [reflexivity|].
  split.
  { intros Hnd. change (map id (timers twice))
      with ["1"; "1700000000000"; "1700000000000"]%list in Hnd.
    inversion Hnd as [|? ? _ Hnd']; subst.
    inversion Hnd' as [|? ? Hnotin _]; subst.
    apply Hnotin. left. reflexivity. }
  eexists. split; [reflexivity|]. split; reflexivity.
Qed.

(** ** The completion sound *)

(** In the component with the two-tone sound a failure of the audio calls
    is caught and logged, and the call of [playNotificationSound] returns. *)
Lemma playNotificationSound_catches (h : Host) :
  audioThrows h = true ->
  playNotificationSound h =
  Returned [ConsoleError "Error playing notification sound:"].
Proof.
  intros Hthrows. unfold playNotificationSound, twoToneChime.
  rewrite Hthrows. reflexivity.
Qed.

(** There the bookkeeping does not depend on the audio: the same state
    results with working and with failing audio. *)
Lemma handleTimerComplete_any_audio (h h' : Host) (s : State) :
  handleTimerComplete h s = handleTimerComplete h' s /\
  exists s', handleTimerComplete h s = Returned s' /\
    isActive s' = false /\
    completedPomodoros s' = completedPomodoros s + 1 /\
    timeLeft s' = match findTimer (activeTimerId s) (timers s) with
                  | Some t => duration t
                  | None => timeLeft s
                  end.
Proof.
  rewrite !handleTimerComplete_returns. split; [reflexivity|].
  exists (completed s).
  destruct (completed_fields s) as (_ & _ & Hi & Hc & _ & _ & Hl).
  repeat split; assumption.
Qed.

(** C8 fails on the single-tone version of the component: its
    [playNotificationSound] has no [try], so when the audio calls throw,
    [handleTimerComplete] throws before any of its three bookkeeping calls
    and the tick that reaches zero ends in the exception, while the same
    tick with working audio, or in the two-tone version with failing
    audio, ends stopped with the count raised and the time reset. *)
Theorem singleTone_audio_failure_propagates :
  let broken := mkHost true None in
  let working := mkHost false None in
  let lastSecond := setIsActive true (setTimeLeft 1 initialState) in
  let done := mkState [mkTimer "1" "Work" 1500] "1" 1500 false 1 false None in
  (forall s, handleTimerComplete_singleTone broken s = Thrown "audio") /\
  commitWith playNotificationSound_singleTone renderBudget broken
             lastSecond (handler Tick lastSecond) = Thrown "audio" /\
  commitWith playNotificationSound_singleTone renderBudget working
             lastSecond (handler Tick lastSecond) = Returned (done, 1%nat) /\
  dispatch broken Tick lastSecond = Returned (done, 1%nat).
Proof.
  intros broken working lastSecond done. repeat split.
Qed.

(** * Further properties of the component *)

(** ** What a commit leaves alone *)

(** The clock effect touches the run flag, the time left and the
    completed count only, and the count rises by one per completion
    call. *)
Lemma commit_frame (fuel : nat) (h : Host) :
  forall prev cur s' k,
    commit fuel h prev cur = Returned (s', k) ->
    timers s' = timers cur /\
    activeTimerId s' = activeTimerId cur /\
    isEditing s' = isEditing cur /\
    editingTimer s' = editingTimer cur /\
    completedPomodoros s' = completedPomodoros cur + Z.of_nat k.
Proof.
  induction fuel as [|fuel IH]; intros prev cur s' k Hc.
  - unfold commit in Hc. simpl in Hc.
    destruct (sameDeps prev cur); [|discriminate].
    injection Hc as <- <-. repeat split; simpl; lia.
  - rewrite commit_unfold in Hc.
    destruct (sameDeps prev cur).
    { injection Hc as <- <-. repeat split; simpl; lia. }
    destruct (Z.eq_dec (timeLeft cur) 0) as [Hz|Hnz].
    + rewrite clockEffect_zero in Hc by assumption. cbn [bind fst snd] in Hc.
      destruct (commit fuel h cur (completed cur)) as [[s1 k1]| |] eqn:E;
        try discriminate.
      cbn [bind fst snd] in Hc. injection Hc as <- <-.
      destruct (IH _ _ _ _ E) as (Ht & Ha & Hi & He & Hn).
      destruct (completed_fields cur) as (Ht' & Ha' & _ & Hc' & Hi' & He' & _).
      repeat split; try congruence; try (rewrite Hn, Hc'; lia).
    + rewrite clockEffect_nonzero in Hc by assumption. cbn [bind fst snd] in Hc.
      destruct (commit fuel h cur cur) as [[s1 k1]| |] eqn:E; try discriminate.
      cbn [bind fst snd] in Hc. injection Hc as <- <-.
      destruct (IH _ _ _ _ E) as (Ht & Ha & Hi & He & Hn).
      repeat split; try congruence; try (rewrite Hn; lia).
Qed.

(** No handler touches the completed count. *)
Lemma handler_completedPomodoros (e : Event) (s : State) :
  completedPomodoros (handler e s) = completedPomodoros s.
Proof.
  destruct e; cbn [handler]; destruct (editView s); try reflexivity.
  - unfold resetTimer. destruct (findTimer _ _); reflexivity.
  - destruct (nth_error (timers s) i); reflexivity.
  - destruct (nth_error (timers s) i); reflexivity.
  - unfold handleNameChange. destruct (editingTimer s); reflexivity.
  - unfold handleDurationChange. destruct (editingTimer s); [|reflexivity].
    destruct (mul (parseInt minutes) 60) as [|d]; simpl; [reflexivity|].
    destruct (0 <? d); reflexivity.
  - unfold saveEdit. destruct (editingTimer s) as [draft|]; [|reflexivity].
    destruct (activeTimerId s =? id draft)%string; reflexivity.
  - destruct (isActive s && (0 <? timeLeft s)); reflexivity.
  - destruct (isActive s && (0 <? timeLeft s)); reflexivity.
Qed.

Lemma dispatch_frame (h : Host) (e : Event) (s s' : State) (k : nat) :
  dispatch h e s = Returned (s', k) ->
  timers s' = timers (handler e s) /\
  activeTimerId s' = activeTimerId (handler e s) /\
  isEditing s' = isEditing (handler e s) /\
  editingTimer s' = editingTimer (handler e s) /\
  completedPomodoros s' = completedPomodoros s + Z.of_nat k.
Proof.
  intros Hd. unfold dispatch in Hd.
  destruct (commit_frame _ _ _ _ _ _ Hd) as (Ht & Ha & Hi & He & Hc).
  rewrite handler_completedPomodoros in Hc. auto.
Qed.

Lemma run_step (h : Host) (e : Event) (es : list Event) (s : State) :
  run h (e :: es) s =
  (r1 <- dispatch h e s ;;
   r2 <- run h es (fst r1) ;;
   Returned (fst r2, (snd r1 + snd r2)%nat)).
Proof. reflexivity. Qed.


(** ** Every session is processed, and the count counts completions *)


(** ** Invariants of the session *)




(** ** The edit flag and the draft *)

(** The flag and the draft are set together and cleared together, and a
    draft carries the id of a preset of the list. *)
Lemma handler_draft (e : Event) (s : State) :
  (isEditing s = true <-> editingTimer s <> None) ->
  (forall draft, editingTimer s = Some draft ->
     In (id draft) (map id (timers s))) ->
  (isEditing (handler e s) = true <-> editingTimer (handler e s) <> None) /\
  (forall draft, editingTimer (handler e s) = Some draft ->
     In (id draft) (map id (timers (handler e s)))).
Proof.
  intros Hsync Hid.
  assert (Hkeep : forall s', isEditing s' = isEditing s ->
            editingTimer s' = editingTimer s ->
            map id (timers s') = map id (timers s) ->
            (isEditing s' = true <-> editingTimer s' <> None) /\
            (forall draft, editingTimer s' = Some draft ->
               In (id draft) (map id (timers s')))).
  { intros s' -> -> ->. auto. }
  destruct e; cbn [handler]; destruct (editView s) eqn:Hview; auto;
    try (apply Hkeep;
         first [ reflexivity
               | unfold resetTimer; destruct (findTimer _ _); reflexivity
               | destruct (isActive s && (0 <? timeLeft s)); reflexivity ]).
  - unfold addNewTimer; simpl. split; [assumption|].
    intros draft Hd. rewrite map_app. apply in_or_app. left. auto.
  - destruct (nth_error (timers s) i); auto; apply Hkeep; reflexivity.
  - destruct (nth_error (timers s) i) as [timer|] eqn:Hn; auto.
    unfold startEditing; simpl. split.
    + split; [discriminate | reflexivity].
    + intros draft [= <-]. simpl. apply in_map. eapply nth_error_In; eauto.
  - unfold handleNameChange. destruct (editingTimer s) as [draft|] eqn:Hd; auto.
    simpl. split.
    + split; [discriminate|]. intros _. apply Hsync. discriminate.
    + intros d [= <-]. simpl. auto.
  - unfold handleDurationChange. destruct (editingTimer s) as [draft|] eqn:Hd; auto.
    destruct (mul (parseInt minutes) 60) as [|d]; simpl; auto.
    destruct (0 <? d); auto. simpl. split.
    + split; [discriminate|]. intros _. apply Hsync. discriminate.
    + intros d' [= <-]. simpl. auto.
  - unfold saveEdit. destruct (editingTimer s) as [draft|]; simpl.
    + destruct (activeTimerId s =? id draft)%string; simpl;
        (split; [split; [discriminate | congruence] | discriminate]).
    + split; [split; [discriminate | congruence] | discriminate].
Qed.

Lemma reachable_draft (s : State) :
  reachable s ->
  (isEditing s = true <-> editingTimer s <> None) /\
  (forall draft, editingTimer s = Some draft ->
     In (id draft) (map id (timers s))).
Proof.
  induction 1 as [|h e s s' k _ IH Hd].
  - simpl. split; [split; [discriminate | congruence] | discriminate].
  - destruct IH as [Hsync Hid].
    destruct (dispatch_frame h e s s' k Hd) as (Ht & _ & Hi & He & _).
    rewrite Ht, Hi, He. now apply handler_draft.
Qed.

(** Outside the edit form a reachable state has neither flag nor draft. *)
Lemma reachable_no_draft (s : State) :
  reachable s -> editView s = false ->
  isEditing s = false /\ editingTimer s = None.
Proof.
  intros Hr Hview. destruct (reachable_draft s Hr) as [Hsync _].
  unfold editView in Hview. destruct (editingTimer s) eqn:E.
  - rewrite andb_true_r in Hview. split; [exact Hview|].
    exfalso. rewrite Hview in Hsync. destruct Hsync as [_ Hsync].
    specialize (Hsync ltac:(discriminate)). discriminate.
  - split; [|reflexivity]. destruct (isEditing s); [|reflexivity].
    exfalso. destruct Hsync as [Hsync _]. now apply Hsync.
Qed.

(** X2. In every reachable state the edit flag is set exactly when there
    is a draft, so the edit form is shown exactly when the flag is set, and
    the draft carries the id of a preset of the list. *)
Theorem reachable_draft_in_sync (s : State) :
  reachable s ->
  (isEditing s = true <-> editingTimer s <> None) /\
  editView s = isEditing s /\
  (forall draft, editingTimer s = Some draft ->
     exists t, In t (timers s) /\ id t = id draft).
Proof.
  intros Hr. destruct (reachable_draft s Hr) as [Hsync Hid].
  split; [exact Hsync|]. split.
  - unfold editView. destruct (editingTimer s) eqn:E.
    + apply andb_true_r.
    + rewrite andb_false_r. destruct (isEditing s); [|reflexivity].
      exfalso. now apply Hsync.
  - intros draft Hd. apply Hid in Hd. apply in_map_iff in Hd as (t & E & Hin).
    exists t. auto.
Qed.

Lemma reachable_draft_in_sync_witness :
  let s := startEditing (mkTimer "1" "Work" 1500) initialState in
  reachable s /\ editView s = true /\
  exists t, In t (timers s) /\ id t = "1".
Proof.
  intros s.
  assert (Hr : reachable s).
  { apply (reachable_event (mkHost false None) (ClickEdit 0) initialState s 0%nat);
      [apply reachable_mount | reflexivity]. }
  split; [exact Hr|].
  destruct (reachable_draft_in_sync s Hr) as (_ & Hview & Hid).
  split; [rewrite Hview; reflexivity|].
  apply (Hid (mkTimer "1" "Work" 1500)). reflexivity.
Defined.

(** ** Ids under a clock that does not repeat *)

Lemma run_ids_unique (h : Host) (es : list Event) :
  forall s s' k,
    run h es s = Returned (s', k) ->
    NoDup (map id (timers s) ++ map toString (clockReadings es)) ->
    NoDup (map id (timers s')).
Proof.
  induction es as [|e es IH]; intros s s' k Hrun Hnd.
  - simpl in Hrun. injection Hrun as <- _. simpl in Hnd.
    now rewrite app_nil_r in Hnd.
  - rewrite run_step in Hrun.
    destruct (dispatch h e s) as [[s1 k1]| |] eqn:Hd; try discriminate.
    cbn [bind fst snd] in Hrun.
    destruct (run h es s1) as [[s2 k2]| |] eqn:Hr; try discriminate.
    cbn [bind fst snd] in Hrun. injection Hrun as <- _.
    apply (IH s1 s2 k2 Hr).
    destruct (dispatch_frame h e s s1 k1 Hd) as (Ht & _).
    rewrite Ht, handler_ids.
    destruct e; simpl clockReadings in *; try exact Hnd.
    destruct (editView s).
    + simpl in Hnd. now apply NoDup_remove_1 in Hnd.
    + simpl in Hnd. now rewrite <- app_assoc.
Qed.

Lemma NoDup_map_toString (l : list Z) : NoDup l -> NoDup (map toString l).
Proof.
  induction 1 as [|x l Hnotin _ IH]; simpl; constructor; [|assumption].
  intros Hin. apply in_map_iff in Hin as (y & E & Hy).
  apply toString_injective in E. subst y. contradiction.
Qed.

(** X8. When the values of [Date.now()] read by the "Add New Timer"
    clicks of a session differ from one another and from 1, the ids of the
    presets are pairwise distinct at the end of the session (the default
    preset has id "1", every other id is the numeral of a clock value). *)
Theorem ids_unique_when_clock_differs (h : Host) (es : list Event) (s' : State) (k : nat) :
  NoDup (1 :: clockReadings es) ->
  run h es initialState = Returned (s', k) ->
  NoDup (map id (timers s')).
Proof.
  intros Hnd Hrun. apply (run_ids_unique h es initialState s' k Hrun).
  change (map id (timers initialState) ++ map toString (clockReadings es))%list
    with (map toString (1 :: clockReadings es)).
  now apply NoDup_map_toString.
Qed.

Lemma ids_unique_when_clock_differs_witness :
  let es := [ClickAddNewTimer 1700000000000; ClickEdit 1; ClickConfirm;
             ClickAddNewTimer 1700000000001] in
  NoDup (1 :: clockReadings es) /\
  exists s', run (mkHost false None) es initialState = Returned (s', 0%nat) /\
             List.length (timers s') = 3%nat /\
             NoDup (map id (timers s')).
Proof.
  intros es.
  assert (Hnd : NoDup (1 :: clockReadings es)).
  { simpl. repeat constructor; simpl; intuition discriminate. }
  split; [exact Hnd|].
  eexists. split; [reflexivity|]. split; [reflexivity|].
  apply (ids_unique_when_clock_differs (mkHost false None) es _ 0%nat Hnd).
  reflexivity.
Defined.

(** ** Pause, resume and reset *)









(** ** Sessions without ticks *)

(** A session that starts in a reachable state ends in one. *)
Lemma reachable_run (h : Host) (es : list Event) :
  forall s s' k, reachable s -> run h es s = Returned (s', k) -> reachable s'.
Proof.
  induction es as [|e es IH]; intros s s' k Hs Hrun.
  - simpl in Hrun. injection Hrun as <- _. exact Hs.
  - rewrite run_step in Hrun.
    destruct (dispatch h e s) as [[s1 k1]| |] eqn:Hd; try discriminate.
    cbn [bind fst snd] in Hrun.
    destruct (run h es s1) as [[s2 k2]| |] eqn:Hr; try discriminate.
    injection Hrun as <- _.
    eapply IH; [|exact Hr]. eapply reachable_event; eauto.
Qed.

(** Between ticks a session is the composition of its handlers: none of
    the commits calls [handleTimerComplete]. *)
Lemma run_quiet (h : Host) (es : list Event) :
  forall s, invariant s -> ~ In Tick es ->
    run h es s = Returned (fold_left (fun st e => handler e st) es s, 0%nat).
Proof.
  induction es as [|e es IH]; intros s Hinv Hno; [reflexivity|].
  assert (Hne : e <> Tick) by (intros ->; apply Hno; now left).
  rewrite run_step, dispatch_quiet by assumption. cbn [bind fst snd].
  rewrite IH; [reflexivity | now apply invariant_handler |].
  intros Hin. apply Hno. now right.
Qed.

Lemma state_eq (a b : State) :
  timers a = timers b -> activeTimerId a = activeTimerId b ->
  timeLeft a = timeLeft b -> isActive a = isActive b ->
  completedPomodoros a = completedPomodoros b ->
  isEditing a = isEditing b -> editingTimer a = editingTimer b -> a = b.
Proof. destruct a, b; simpl; intros; subst; reflexivity. Qed.

(** With unique ids a preset is determined by its id. *)
Lemma unique_by_id (l : list Timer) (a b : Timer) :
  NoDup (map id l) -> In a l -> In b l -> id a = id b -> a = b.
Proof.
  intros Hnd Ha Hb E. pose proof (findTimer_unique l a Hnd Ha) as Fa.
  pose proof (findTimer_unique l b Hnd Hb) as Fb. rewrite E in Fa. congruence.
Qed.


(** X11. Adding a preset and then clicking it: the new preset becomes the
    active one with 1500 seconds on a stopped clock, whatever was running
    before; no completion happens.  When its id is new, the active id
    resolves to the new preset itself. *)
Theorem add_then_select (h : Host) (now : Z) (s : State) :
  editView s = false ->
  let newTimer := mkTimer (toString now) "New Timer" 1500 in
  exists s',
    run h [ClickAddNewTimer now; ClickSelect (List.length (timers s))] s
      = Returned (s', 0%nat) /\
    timers s' = (timers s ++ [newTimer])%list /\
    activeTimerId s' = toString now /\
    timeLeft s' = 1500 /\
    isActive s' = false /\
    completedPomodoros s' = completedPomodoros s /\
    (~ In (toString now) (map id (timers s)) ->
     findTimer (activeTimerId s') (timers s') = Some newTimer).
Proof.
  intros Hview newTimer.
  exists (selectTimer newTimer (addNewTimer now s)).
  split.
  - rewrite run_step, dispatch_addNewTimer by assumption. cbn [bind fst snd].
    rewrite run_step.
    assert (Hsel : dispatch h (ClickSelect (List.length (timers s))) (addNewTimer now s)
                   = Returned (selectTimer newTimer (addNewTimer now s), 0%nat)).
    { unfold dispatch, renderBudget. cbn [handler].
      change (editView (addNewTimer now s)) with (editView s). rewrite Hview.
      change (timers (addNewTimer now s)) with (timers s ++ [newTimer])%list.
      rewrite nth_error_app2, Nat.sub_diag by lia. simpl nth_error.
      apply commit_positive. simpl. lia. }
    rewrite Hsel. reflexivity.
  - repeat split. intros Hfresh. simpl.
    unfold findTimer. induction (timers s) as [|a l IH]; simpl.
    + now rewrite String.eqb_refl.
    + destruct (id a =? toString now)%string eqn:E.
      * apply String.eqb_eq in E. exfalso. apply Hfresh. now left.
      * apply IH. intros Hin. apply Hfresh. now right.
Qed.

Lemma add_then_select_witness :
  exists s',
    run (mkHost false None) [ClickAddNewTimer 42; ClickSelect 1]
        (setIsActive true (setTimeLeft 9 initialState)) = Returned (s', 0%nat) /\
    activeTimerId s' = "42" /\ timeLeft s' = 1500 /\ isActive s' = false.
Proof.
  destruct (add_then_select (mkHost false None) 42
              (setIsActive true (setTimeLeft 9 initialState)) eq_refl)
    as (s' & Hrun & _ & Ha & Hl & Hi & _).
  exists s'. repeat split; assumption.
Defined.

(** ** Editing a preset *)

(** The presets after [saveEdit], position by position. *)
Lemma saveEdit_nth (s : State) (draft : EditingTimer) (j : nat) :
  editingTimer s = Some draft ->
  nth_error (timers (saveEdit s)) j =
  option_map (fun timer =>
                if (id timer =? id draft)%string
                then {| id := id timer; name := name draft; duration := duration draft |}
                else timer)
             (nth_error (timers s) j).
Proof.
  intros Hd. unfold saveEdit. rewrite Hd.
  destruct (activeTimerId s =? id draft)%string; simpl; apply nth_error_map.
Qed.

(** X6. Opening the edit form of a preset and confirming at once changes
    no preset (ids being unique).  It is not always without effect: when
    the preset is the active one the clock is set back to its full
    duration, even in the middle of a countdown, which keeps running. *)
Theorem edit_confirm_round_trip (h : Host) (s : State) (i : nat) (timer : Timer) :
  reachable s ->
  editView s = false ->
  nth_error (timers s) i = Some timer ->
  NoDup (map id (timers s)) ->
  run h [ClickEdit i; ClickConfirm] s =
  Returned ((if (activeTimerId s =? id timer)%string
             then setTimeLeft (duration timer) s else s), 0%nat).
Proof.
  intros Hr Hview Hnth Hnd.
  destruct (reachable_no_draft s Hr Hview) as [Hflag Hnone].
  rewrite run_quiet;
    [| now apply reachable_invariant | simpl; intuition discriminate].
  do 2 f_equal. cbn [fold_left handler]. rewrite Hview, Hnth.
  change (editView (startEditing timer s)) with true. cbv iota.
  assert (Htimers : timers (saveEdit (startEditing timer s)) = timers s).
  { apply nth_error_ext. intros j.
    rewrite (saveEdit_nth _ {| id := id timer; name := name timer;
                               duration := duration timer |}) by reflexivity.
    change (timers (startEditing timer s)) with (timers s).
    destruct (nth_error (timers s) j) as [x|] eqn:Hx; [|reflexivity].
    simpl. destruct (id x =? id timer)%string eqn:E; [|reflexivity].
    apply String.eqb_eq in E.
    assert (x = timer)
      by (eapply unique_by_id; eauto using nth_error_In).
    subst x. destruct timer; reflexivity. }
  unfold saveEdit in *. cbn [editingTimer startEditing setIsEditing setEditingTimer
                            activeTimerId id duration] in *.
  destruct (activeTimerId s =? id timer)%string;
    apply state_eq; simpl in *; auto.
Qed.

Lemma edit_confirm_round_trip_witness :
  let s := setIsActive true (setTimeLeft 1497 initialState) in
  reachable s /\
  run (mkHost false None) [ClickEdit 0; ClickConfirm] s
    = Returned (setTimeLeft 1500 s, 0%nat).
Proof.
  intros s.
  assert (Hr : reachable s).
  { apply (reachable_run (mkHost false None) [ClickLaunch; Tick; Tick; Tick]
             initialState s 0%nat); [apply reachable_mount | reflexivity]. }
  split; [exact Hr|].
  apply (edit_confirm_round_trip (mkHost false None) s 0
           (mkTimer "1" "Work" 1500) Hr eq_refl eq_refl).
  simpl. repeat constructor. intros [].
Defined.



(** ** Durations are whole minutes *)




(** ** The page title *)

Lemma hasColon_app (a b : string) :
  hasColon (a ++ b) = hasColon a || hasColon b.
Proof.
  induction a as [|c a IH]; simpl; [reflexivity|].
  now rewrite IH, orb_assoc.
Qed.

Lemma formatTime_hasColon (seconds : Z) : hasColon (formatTime seconds) = true.
Proof.
  unfold formatTime. rewrite hasColon_app. simpl. apply orb_true_r.
Qed.

(** X9. The page title follows the countdown.  In every reachable state
    with the countdown running, the title is the name of the active preset,
    " - " and the formatted time left, and is never the idle text; with the
    countdown stopped it is "Pomodoro Timer". *)
Theorem title_follows_countdown (s : State) :
  reachable s ->
  (isActive s = true ->
     exists active,
       findTimer (activeTimerId s) (timers s) = Some active /\
       documentTitle s = name active ++ " - " ++ formatTime (timeLeft s) /\
       documentTitle s <> "Pomodoro Timer") /\
  (isActive s = false -> documentTitle s = "Pomodoro Timer").
Proof.
  intros Hr. apply reachable_invariant in Hr.
  destruct Hr as (_ & _ & _ & active & Hf).
  unfold documentTitle. rewrite Hf. split; intros Hact; rewrite Hact.
  - exists active. repeat split.
    intros Habs. apply (f_equal hasColon) in Habs.
    rewrite !hasColon_app, formatTime_hasColon, !orb_true_r in Habs.
    discriminate.
  - reflexivity.
Qed.

Lemma title_follows_countdown_witness :
  let s := setIsActive true (setTimeLeft 1497 initialState) in
  reachable s /\ documentTitle s = "Work - 24:57".
Proof.
  intros s.
  assert (Hr : reachable s).
  { apply (reachable_run (mkHost false None) [ClickLaunch; Tick; Tick; Tick]
             initialState s 0%nat); [apply reachable_mount | reflexivity]. }
  split; [exact Hr|].
  destruct (title_follows_countdown s Hr) as [Hrun _].
  destruct (Hrun eq_refl) as (active & Hf & Ht & _).
  injection Hf as <-. exact Ht.
Defined.

(** ** Reset on a loaded clock *)

(** X12. [resetTimer] is idempotent: a second Reset changes nothing.  It
    also changes nothing right after the completion sequence, which has
    already stopped the countdown and loaded the clock. *)
Theorem resetTimer_idempotent (s : State) :
  resetTimer (resetTimer s) = resetTimer s /\
  resetTimer (completed s) = completed s.
Proof.
  assert (Hidem : forall st, resetTimer (resetTimer st) = resetTimer st).
  { intros st. unfold resetTimer at 2 3.
    destruct (findTimer (activeTimerId st) (timers st)) as [t|] eqn:Hf;
      unfold resetTimer; simpl; rewrite Hf; reflexivity. }
  split; [apply Hidem|]. unfold completed. apply Hidem.
Qed.

(** ** Reading a displayed time back *)






(** ** Session after session *)




(** ** The two versions of the component *)



